(** * Dedalus example drivers: internally heated convection in the ball
      and the 2-D Poisson problem

    A shallow embedding of the two driver scripts
    [examples/ivp_ball_internally_heated_convection/internally_heated_conv.py]
    and [examples/lbvp_2d_poisson/poisson.py].

    Conventions.
    - Python floats are idealised as exact rationals ([Q]): [0.05] is
      [5/100], [10.01] is [1001/100].  Orderings, [min] and the control
      flow built on them are what the development is about; rounding is
      not modelled.
    - The Python variables that hold fields ([u], [p], [T], ...) live in
      a store [gmap string Field]; [solver.state] is a list of names into
      that store, so that the aliasing between the script's variables and
      the solver's state list is kept.
    - Everything the scripts import from [dedalus.core], [dedalus.extras]
      and NumPy is outside the two files.  The numerical kernels
      (transforms, the IMEX update, the evaluation of the flow speed) are
      section variables; the small pieces of control logic the scripts
      rely on are modelled from the design document and marked so. *)

From Stdlib Require Import QArith Qabs Qminmax Qround Lqa ZArith Lia.
From stdpp Require Import gmap strings list fin_maps.

Local Open Scope Q_scope.

(** ** Fields (dedalus.core.field) *)

Inductive layout := Grid | Coeff.

(** A field owns one buffer, tagged by the representation it currently
    holds.  [data] has one row per tensor component; each row is the
    flattened local array of that component. *)
Record Field := mkField { field_layout : layout; data : list (list Q) }.

Definition zeros (n : nat) : list Q := replicate n 0.

(** Modelled from the spec: the [Field] constructor is not in the sources
    (section 3 gives a field a storage buffer tagged "grid" or
    "coefficient").  A fresh field has a zero-filled buffer of the shape
    fixed by its bases and tensor signature, tagged as coefficient data;
    the script relies on the zeros when it sets only component 2 of the
    radius vector [r_vec]. *)
Definition Field_new (components size : nat) : Field :=
  mkField Coeff (replicate components (zeros size)).

Definition all_zero (row : list Q) : Prop := Forall (fun q => q == 0) row.

(** The numerical kernels of the framework and of NumPy that the scripts
    call but do not contain. *)
Class Kernels := {
  (** the internal numerical state of a solver: factorised matrices and
      the multistep history *)
  Kernel : Type;
  kernel_init : Kernel;
  (** the basis transforms between the two representations *)
  to_grid : list (list Q) -> list (list Q);
  to_coeff : list (list Q) -> list (list Q);
  (** one IMEX update: from the step size, the solver's internal state
      and every field the equations mention, the new internal state and
      the new coefficient data of each state field *)
  imex_update : Q -> Kernel -> gmap string Field -> Kernel * (string -> list (list Q));
  (** what the CFL controller evaluates on the grid: for every local grid
      point the grid spacing and the flow speed there *)
  courant_samples : gmap string Field -> list (Q * Q);
  (** [np.random.RandomState(seed).rand(n)] *)
  rand : Z -> nat -> list Q
}.

Section Fields.
Context `{Kernels}.

(** Modelled from the spec: [require_grid()] / [require_coeff()] switch
    the representation, transforming only when the buffer holds the other
    one (section 4.2). *)
Definition require_grid_space (f : Field) : Field :=
  match field_layout f with
  | Grid => f
  | Coeff => mkField Grid (to_grid (data f))
  end.

Definition require_coeff_space (f : Field) : Field :=
  match field_layout f with
  | Coeff => f
  | Grid => mkField Coeff (to_coeff (data f))
  end.

(** [f['g'] = value]: the buffer is overwritten and tagged as grid data. *)
Definition set_grid (value : list (list Q)) (f : Field) : Field :=
  mkField Grid value.

(** [f['g'][i] = row]: the grid view is requested, then component [i] is
    overwritten.  An index outside the tensor components is NumPy's
    IndexError, here [None]. *)
Definition set_grid_component (i : nat) (row : list Q) (f : Field) : option Field :=
  let g := require_grid_space f in
  if decide (i < length (data g))%nat
  then Some (mkField Grid (<[i := row]> (data g)))
  else None.

(** [f['g'] += value]: elementwise sum into the grid view; NumPy refuses
    operands whose shapes differ ([None]). *)
Definition add_rows (a b : list Q) : option (list Q) :=
  if decide (length a = length b) then Some (zip_with Qplus a b) else None.

Definition iadd_grid_scalar (value : list Q) (f : Field) : option Field :=
  match data (require_grid_space f) with
  | [row] => (fun s => mkField Grid [s]) <$> add_rows row value
  | _ => None
  end.

End Fields.

(** ** Command line and parameters (lines 38-55) *)

(** [len(sys.argv) > 1 and sys.argv[1] == '--restart'] *)
Definition restart (argv : list string) : bool :=
  bool_decide (1 < length argv)%nat
  && bool_decide (argv !! 1%nat = Some "--restart"%string).

Definition Nphi : Z := 128.
Definition Ntheta : Z := 64.
Definition Nr : Z := 48.
Definition dealias : Q := 3 # 2.

Definition t_end (restart : bool) : Q :=
  if negb restart then 10.01 else 20.

Definition Rayleigh : Q := 1000000.
Definition Prandtl : Q := 1.
(** [np.sqrt(Rayleigh*Prandtl)] and [np.sqrt(Rayleigh/Prandtl)]: both
    square roots are exactly 1000. *)
Definition R : Q := 1000.
Definition P : Q := 1000.
Definition T_source : Q := 6.

(** [c = coords.SphericalCoordinates('phi', 'theta', 'r')] *)
Definition c : list string := ["phi"; "theta"; "r"]%string.

(** ** Equations and problem assembly *)

(** The spectral (group) indices an equation condition may mention. *)
Inductive index_name := nphi | ntheta.

Record spectral_index := mkIndex { idx_nphi : Z; idx_ntheta : Z }.

Definition index_get (v : index_name) (i : spectral_index) : Z :=
  match v with nphi => idx_nphi i | ntheta => idx_ntheta i end.

(** The condition strings of the script, as the expressions they
    evaluate to: ["ntheta != 0"] is [CNe ntheta 0]. *)
Inductive cond :=
  | CEq (v : index_name) (n : Z)
  | CNe (v : index_name) (n : Z).

Definition eval_cond (i : spectral_index) (k : cond) : bool :=
  match k with
  | CEq v n => bool_decide (index_get v i = n)
  | CNe v n => bool_decide (index_get v i ≠ n)
  end.

(** [problem.add_equation(eq_eval("lhs = rhs"), condition=...)]: the two
    sides as written, and the condition when one is given. *)
Record equation := mkEq {
  eq_lhs : string;
  eq_rhs : string;
  eq_condition : option cond
}.

Module Convection.

(** Lines 95-102. *)
Definition variables : list string := ["u"; "p"; "T"; "tau_u"; "tau_T"]%string.

Definition momentum : equation :=
  mkEq "ddt(u) - 1/R*lap(u) + grad(p) + LiftTau(tau_u) - r_vec*T"
       "- cross(curl(u),u)" None.
Definition continuity : equation := mkEq "div(u)" "0" None.
Definition temperature : equation :=
  mkEq "ddt(T) - 1/P*lap(T) + LiftTau(tau_T)"
       "- dot(u,grad(T)) + T_source/P" None.
Definition no_penetration : equation :=
  mkEq "rad(u(r=1))" "0" (Some (CNe ntheta 0)).
Definition pressure_gauge : equation :=
  mkEq "p(r=1)" "0" (Some (CEq ntheta 0)).
Definition stress_free : equation := mkEq "shear_stress" "0" None.
Definition temperature_bc : equation := mkEq "T(r=1)" "0" None.

Definition equations : list equation :=
  [momentum; continuity; temperature; no_penetration; pressure_gauge;
   stress_free; temperature_bc].

End Convection.

Module Poisson.

(** poisson.py, lines 61-64. *)
Definition variables : list string := ["u"; "tau1"; "tau2"]%string.

Definition equations : list equation :=
  [mkEq "lap(u) + lift(tau1,-1) + lift(tau2,-2)" "f" None;
   mkEq "u(y=0)" "g" None;
   mkEq "dy(u)(y=Ly)" "h" None].

End Poisson.

(** An equation governs a spectral index when it has no condition or its
    condition holds there; it _claims_ the index when it is conditioned
    and the condition holds. *)
Definition governs (i : spectral_index) (e : equation) : bool :=
  match eq_condition e with
  | None => true
  | Some k => eval_cond i k
  end.

Definition claims (i : spectral_index) (e : equation) : bool :=
  match eq_condition e with
  | None => false
  | Some k => eval_cond i k
  end.

Definition claimants (i : spectral_index) (eqs : list equation) : list equation :=
  List.filter (claims i) eqs.

(** Mode coverage at one index (section 8): the index is claimed by
    exactly one conditioned equation, never zero, never more than one. *)
Definition coverage_ok (i : spectral_index) (eqs : list equation) : bool :=
  bool_decide (length (claimants i eqs) = 1%nat).

Inductive assembly :=
  | Assembled (routing : list (spectral_index * list equation))
  | AssemblyError (at_index : spectral_index).

(** Modelled from the spec: the assembly loop of [dedalus.core.problems]
    is not in the sources.  For every spectral index the equations whose
    condition matches are collected (section 4.4); an index claimed by no
    conditioned equation or by more than one is a fatal [AssemblyError]
    (sections 4.3, 7, 8).  The construction of the matrices themselves is
    not part of this model. *)
Fixpoint assemble (eqs : list equation) (indices : list spectral_index) : assembly :=
  match indices with
  | [] => Assembled []
  | i :: rest =>
      if coverage_ok i eqs
      then match assemble eqs rest with
           | Assembled routing => Assembled ((i, List.filter (governs i) eqs) :: routing)
           | AssemblyError j => AssemblyError j
           end
      else AssemblyError i
  end.

(** ** The initial value solver (dedalus.core.solvers) *)

Section Driver.
Context `{Kernels}.

Record Solver := mkSolver {
  sim_time : Q;
  iteration : Z;
  stop_sim_time : option Q;      (* [None]: no limit *)
  stop_iteration : option Z;     (* [None]: no limit *)
  state : list string;           (* the problem variables, by name *)
  kernel : Kernel
}.

(** Modelled from the spec: [solvers.InitialValueSolver(problem, ts)].
    A solver starts at time 0, iteration 0, without stop limits, and its
    state is the list of the problem's variables (section 3,
    SolverState). *)
Definition InitialValueSolver (variables : list string) : Solver :=
  mkSolver 0 0%Z None None variables kernel_init.

Definition set_stop_sim_time (t : Q) (s : Solver) : Solver :=
  mkSolver (sim_time s) (iteration s) (Some t) (stop_iteration s) (state s) (kernel s).

(** Modelled from the spec: the boolean "continue" signal
    [solver.proceed] (section 4.5): false once [sim_time >= stop_sim_time]
    or once the iteration limit is reached.  The wall-clock limit is not
    modelled. *)
Definition proceed (s : Solver) : bool :=
  match stop_sim_time s with
  | Some t => if Qlt_le_dec (sim_time s) t then true else false
  | None => true
  end
  && match stop_iteration s with
     | Some n => bool_decide (iteration s < n)%Z
     | None => true
     end.

Definition write_state (new : string -> list (list Q)) (names : list string)
    (fs : gmap string Field) : gmap string Field :=
  foldr (fun name acc => <[name := mkField Coeff (new name)]> acc) fs names.

(** Modelled from the spec: [solver.step(dt)] (section 4.5, steps 1-5).
    The IMEX update is computed by the kernel from the current fields;
    its result is written back into the state fields in coefficient
    representation; then the iteration counter advances by one and the
    simulation time by [dt]. *)
Definition step (dt : Q) (s : Solver) (fs : gmap string Field) : Solver * gmap string Field :=
  let '(k, new) := imex_update dt (kernel s) fs in
  (mkSolver (sim_time s + dt) (iteration s + 1)%Z (stop_sim_time s)
            (stop_iteration s) (state s) k,
   write_state new (state s) fs).

(** ** The CFL controller (dedalus.extras.flow_tools) *)

Record CFL := mkCFL {
  stored_dt : Q;
  cadence : Z;
  safety : Q;
  threshold : Q;
  max_dt : Q
}.

(** [grid_spacing / |velocity|] at one grid point; undefined where the
    flow is at rest. *)
Definition ratio (p : Q * Q) : option Q :=
  if Qlt_le_dec 0 (snd p) then Some (fst p / snd p) else None.

Definition omin (a b : option Q) : option Q :=
  match a, b with
  | Some x, Some y => Some (Qmin x y)
  | Some x, None => Some x
  | None, _ => b
  end.

Definition min_ratio (samples : list (Q * Q)) : option Q :=
  foldr (fun p acc => omin (ratio p) acc) None samples.

(** [safety * min(grid_spacing / |velocity|)]; [None] when the velocity
    vanishes everywhere. *)
Definition courant_bound (k : CFL) (samples : list (Q * Q)) : option Q :=
  Qmult (safety k) <$> min_ratio samples.

(** Changes smaller than the fraction [threshold] of the current step are
    ignored. *)
Definition hysteresis (k : CFL) (candidate : Q) : Q :=
  if Qlt_le_dec (threshold k * stored_dt k) (Qabs (candidate - stored_dt k))
  then candidate
  else stored_dt k.

(** Modelled from the spec: [CFL.compute_timestep()] (sections 4.5, 7).
    Every [cadence] iterations the Courant bound is evaluated, with
    [max_dt] as the fallback where it is undefined; hysteresis against the
    current step and the hard cap [max_dt] are applied; the result is
    remembered and returned. *)
Definition compute_timestep (k : CFL) (it : Z) (samples : list (Q * Q)) : Q * CFL :=
  let kept :=
    if decide (it mod cadence k = 0)%Z
    then hysteresis k (default (max_dt k) (courant_bound k samples))
    else stored_dt k in
  let new := Qmin kept (max_dt k) in
  (new, mkCFL new (cadence k) (safety k) (threshold k) (max_dt k)).

(** ** The convection script *)

Inductive event :=
  | EvCFL (dt : Q)                  (* [CFL.compute_timestep()] returned [dt] *)
  | EvStep (dt : Q)                 (* [solver.step(dt)] *)
  | EvLog (t dt : Q)                (* [logger.info] *)
  | EvRequireGrid (name : string).  (* [f.require_grid_space()] *)

Record Run := mkRun {
  fields : gmap string Field;
  solver : Solver;
  cfl : CFL;
  dt : Q;
  trace : list event
}.

Definition hermitian_cadence : Z := 100.

Definition require_grid_all (names : list string) (fs : gmap string Field) : gmap string Field :=
  foldr (fun name acc => alter require_grid_space name acc) fs names.

(** Lines 149-151. *)
Definition symmetrize (s : Solver) (fs : gmap string Field) : gmap string Field * list event :=
  if decide ((iteration s mod hermitian_cadence)%Z ∈ [0; 1]%Z)
  then (require_grid_all (state s) fs, EvRequireGrid <$> state s)
  else (fs, []).

(** Lines 146-147. *)
Definition log_progress (s : Solver) (dt : Q) : list event :=
  if decide (((iteration s - 1) mod 10)%Z = 0%Z) then [EvLog (sim_time s) dt] else [].

(** One pass through the body of [while solver.proceed:] (lines 144-151). *)
Definition loop_body (st : Run) : Run :=
  let '(dt, k) := compute_timestep (cfl st) (iteration (solver st))
                                   (courant_samples (fields st)) in
  let '(s, fs) := step dt (solver st) (fields st) in
  let '(fs', sym) := symmetrize s fs in
  mkRun fs' s k dt (trace st ++ EvCFL dt :: EvStep dt :: log_progress s dt ++ sym).

(** [n] passes of the loop, or fewer when [solver.proceed] turns false. *)
Fixpoint run (n : nat) (st : Run) : Run :=
  match n with
  | O => st
  | S n' => if proceed (solver st) then run n' (loop_body st) else st
  end.

(** The main loop with fuel: [None] when the loop is still running after
    [fuel] passes. *)
Definition main_loop (fuel : nat) (st : Run) : option Run :=
  let st' := run fuel st in
  if proceed (solver st') then None else Some st'.

(** *** Initialisation (lines 38-137) *)

(** What a checkpoint file holds (section 6): the write number, the step
    size, and the solver state that was saved. *)
Record Checkpoint := mkCheckpoint {
  ck_write : Z;
  ck_dt : Q;
  ck_sim_time : Q;
  ck_iteration : Z;
  ck_data : string -> list (list Q)
}.

(** What the script reads from its environment. *)
Record Inputs := mkInputs {
  argv : list string;                    (* [sys.argv] *)
  rank : Z;                              (* [d.comm_cart.rank] *)
  phi : list Q;                          (* [b.local_grids((1, 1, 1))] *)
  theta : list Q;
  r : list Q;
  files : string -> option Checkpoint    (* the checkpoint files on disk *)
}.

Definition S2_size (inp : Inputs) : nat := (length (phi inp) * length (theta inp))%nat.
Definition ball_size (inp : Inputs) : nat := (S2_size inp * length (r inp))%nat.

(** The radial grid broadcast to the shape [(Nphi, Ntheta, Nr)] of a
    field on the ball, flattened with the radius varying fastest. *)
Definition broadcast_r (inp : Inputs) : list Q :=
  concat (replicate (S2_size inp) (r inp)).

(** Lines 65-70: the fields, by the name of the Python variable. *)
Definition new_fields (inp : Inputs) : gmap string Field :=
  <["r_vec" := Field_new 3 (length (r inp))]>
  (<["tau_T" := Field_new 1 (S2_size inp)]>
  (<["tau_u" := Field_new 3 (S2_size inp)]>
  (<["T" := Field_new 1 (ball_size inp)]>
  (<["p" := Field_new 1 (ball_size inp)]>
  (<["u" := Field_new 3 (ball_size inp)]> ∅))))).

(** Line 71: [r_vec['g'][2] = r]. *)
Definition set_r_vec (inp : Inputs) (fs : gmap string Field) : option (gmap string Field) :=
  f ← fs !! "r_vec";
  f' ← set_grid_component 2 (r inp) f;
  Some (<["r_vec" := f']> fs).

(** Lines 111-114: [T['g'] = 1-r**2], then
    [T['g'] += 0.5*rand.rand(...)] over the shape of [T['g']], with the generator seeded by
    [42 + rank]. *)
Definition seed (inp : Inputs) : Z := (42 + rank inp)%Z.

Definition conductive (x : Q) : Q := 1 - x ^ 2.

Definition perturbation (inp : Inputs) : list Q :=
  Qmult 0.5 <$> rand (seed inp) (ball_size inp).

Definition init_T (inp : Inputs) (fs : gmap string Field) : option (gmap string Field) :=
  f ← fs !! "T";
  f' ← iadd_grid_scalar (perturbation inp) (set_grid [conductive <$> broadcast_r inp] f);
  Some (<["T" := f']> fs).

(** Modelled from the spec: [solver.load_state(path)] (section 6,
    [deserialize_state]): the saved coefficient data, iteration and
    simulation time are put back, and the write number and step size are
    returned.  A missing file is an exception, here [None]. *)
Definition load_state (inp : Inputs) (path : string) (s : Solver) (fs : gmap string Field)
    : option (Z * Q * Solver * gmap string Field) :=
  ck ← files inp path;
  Some (ck_write ck, ck_dt ck,
        mkSolver (ck_sim_time ck) (ck_iteration ck) (stop_sim_time s)
                 (stop_iteration s) (state s) (kernel s),
        write_state (ck_data ck) (state s) fs).

(** Line 136. *)
Definition new_CFL (initial_dt : Q) : CFL := mkCFL initial_dt 1 0.35 0.1 0.05.

(** The script up to the main loop.  [None] is a Python exception. *)
Definition script_init (inp : Inputs) : option Run :=
  let restart := restart (argv inp) in
  fs ← set_r_vec inp (new_fields inp);
  let s := set_stop_sim_time (t_end restart) (InitialValueSolver Convection.variables) in
  '(dt, s, fs) ←
    (if negb restart
     then fs' ← init_T inp fs; Some (0.05, s, fs')
     else '(write, dt, s', fs') ← load_state inp "checkpoints/checkpoints_s11.h5" s fs;
          Some (dt, s', fs'));
  Some (mkRun fs s (new_CFL dt) dt []).

(** The whole script: initialisation, then the main loop. *)
Definition script (inp : Inputs) (fuel : nat) : option (option Run) :=
  main_loop fuel <$> script_init inp.

End Driver.

(** ** Reading a run *)

Section Observations.
Context `{Kernels}.

(** The states at the head of each pass that [run n] executes. *)
Fixpoint passes (n : nat) (st : Run) : list Run :=
  match n with
  | O => []
  | S n' => if proceed (solver st) then st :: passes n' (loop_body st) else []
  end.

(** The events of a trace that concern the time step. *)
Definition is_control (e : event) : bool :=
  match e with EvCFL _ | EvStep _ => true | _ => false end.

Definition is_require (e : event) : bool :=
  match e with EvRequireGrid _ => true | _ => false end.

(** The events one pass appends to the trace. *)
Definition pass_events (st : Run) : list event :=
  drop (length (trace st)) (trace (loop_body st)).

(** The fields as [solver.step] leaves them in a pass, before the
    symmetrisation of lines 149-151. *)
Definition stepped_fields (st : Run) : gmap string Field :=
  (step (dt (loop_body st)) (solver st) (fields st)).2.

(** The grid values of the product [r_vec*T] of the momentum equation: every
    component of the radial vector field, broadcast to the ball, times the
    scalar. *)
Definition ncc_product (inp : Inputs) (vec : list (list Q)) (scalar : list Q) : list (list Q) :=
  (fun row => zip_with Qmult (concat (replicate (S2_size inp) row)) scalar) <$> vec.

End Observations.

(** ** Concrete kernels and inputs, to run the model *)

(** Kernels under which every state field is updated pointwise by [g];
    the transforms are the identity, the flow speed is read off the first
    value of [u] with unit grid spacing, and the random numbers are
    eighths. *)
Definition toy_kernels (g : Q -> Q) : Kernels := {|
  Kernel := unit;
  kernel_init := tt;
  to_grid := id;
  to_coeff := id;
  imex_update := fun _ k fs =>
    (k, fun name => from_option (fun f => fmap (M := list) g <$> data f) [] (fs !! name));
  courant_samples := fun fs =>
    match data <$> fs !! "u"%string with
    | Some ((v :: _) :: _) => [(1, Qabs v)]
    | _ => []
    end;
  rand := fun seed n => (fun i => ((seed + Z.of_nat i) mod 8)%Z # 8) <$> seq 0 n
|}.

(** A fluid that stays as it is. *)
Definition still : Kernels := toy_kernels id.

(** A flow whose speed doubles with every step. *)
Definition doubling : Kernels :=
  toy_kernels (fun v => if Qeq_bool v 0 then 14 else 2 * v).

Definition demo_checkpoint : Checkpoint :=
  mkCheckpoint 11 0.01 19.88 1990 (fun _ => [[0; 0; 0; 0]]).

Definition demo_inputs (args : list string) : Inputs :=
  mkInputs ("internally_heated_conv.py"%string :: args) 0 [0; 3] [1] [1 # 4; 3 # 4]
    (fun path => if decide (path = "checkpoints/checkpoints_s11.h5"%string)
                 then Some demo_checkpoint else None).


(** The states of the run under [doubling] after the first pass: with
    [q] halving at every pass, the speed is [14 / q], the step [0.05 * q]
    and the time [0.1 - 0.05 * q]. *)
Definition zeno_invariant (q : Q) (st : @Run doubling) : Prop :=
  0 < q /\ q <= 1
  /\ (exists lay w rest rows,
        @fields doubling st !! "u"%string = Some (mkField lay ((w :: rest) :: rows))
        /\ w * q == 14)
  /\ cfl st = new_CFL (stored_dt (cfl st))
  /\ stored_dt (cfl st) == 0.05 * q
  /\ sim_time (solver st) == 0.1 - 0.05 * q
  /\ stop_sim_time (solver st) = Some 10.01
  /\ stop_iteration (solver st) = None
  /\ state (solver st) = Convection.variables.

(** A restart from a checkpoint written after the stop time. *)
Definition late_inputs : Inputs :=
  mkInputs ["internally_heated_conv.py"; "--restart"]%string 3 [0; 3] [1] [1 # 4; 3 # 4]
    (fun _ => Some (mkCheckpoint 21 0.05 20.03 2003 (fun _ => [[0; 0; 0; 0]]))).

(** ** Further observations of a run *)

Definition is_log (e : event) : bool :=
  match e with EvLog _ _ => true | _ => false end.

(** The step sizes of the passes that [run n] executes, in order. *)
Definition step_sizes `{Kernels} (n : nat) (st : Run) : list Q :=
  (fun s => dt (loop_body s)) <$> passes n st.

(** ** The data of the Poisson script (poisson.py, lines 26-52) *)

Module PoissonData.

Definition Nx : Z := 256.
Definition Ny : Z := 128.
Definition Ly : Q := 1.

Section Forcing.

(** [np.sin] *)
Variable sin : Q -> Q.

(** [f['g'] = -10 * np.sin(x/2)**2 * (y - y**2)], with [x] of shape
    [(Nx, 1)] and [y] of shape [(1, Ny)]: one row per point of [x]. *)
Definition f_grid (x y : list Q) : list (list Q) :=
  (fun xi => (fun yj => -10 * sin (xi / 2) ^ 2 * (yj - yj ^ 2)) <$> y) <$> x.

(** [g['g'] = np.sin(8*x)] *)
Definition g_grid (x : list Q) : list Q := (fun xi => sin (8 * xi)) <$> x.

(** [h['g'] = 0] *)
Definition h_grid (x : list Q) : list Q := (fun _ => 0) <$> x.

End Forcing.

End PoissonData.

(** * Properties *)

Lemma R_is_sqrt : R * R == Rayleigh * Prandtl.
Proof. reflexivity. Qed.

Lemma P_is_sqrt : P * P == Rayleigh / Prandtl.
Proof. reflexivity. Qed.

(** ** Mode coverage in assembly *)





(** Dropping the pressure gauge leaves the mode [ntheta = 0] without a
    claimant, and so does a list without conditioned equations at every
    mode; a second condition that also holds at a mode is an overlap. *)
Example coverage_gap :
  assemble [Convection.momentum; Convection.no_penetration]
           [mkIndex 0 1; mkIndex 0 0; mkIndex 1 1]
  = AssemblyError (mkIndex 0 0).
Proof. reflexivity. Qed.

Example coverage_none :
  assemble [Convection.momentum; Convection.continuity] [mkIndex 0 3]
  = AssemblyError (mkIndex 0 3).
Proof. reflexivity. Qed.

Example coverage_overlap :
  assemble (mkEq "p(r=1)" "0" (Some (CNe nphi 5)) :: Convection.equations)
           [mkIndex 0 1; mkIndex 0 0]
  = AssemblyError (mkIndex 0 1).
Proof. reflexivity. Qed.

(** ** Restart mode and the initial condition *)

Section ScriptProperties.
Context `{Kernels}.

Lemma restart_iff (script : string) (args : list string) :
  restart (script :: args) = true <-> exists rest, args = "--restart"%string :: rest.
Proof.
  unfold restart. rewrite andb_true_iff, !bool_decide_eq_true.
  destruct args as [|a rest]; cbn.
  - split; [intros [l _]; lia | intros [rest e]; discriminate].
  - split.
    + intros [_ e]. exists rest. congruence.
    + intros [rest' e]. split; [lia | congruence].
Qed.

Lemma perturbed_interval (xs rhos : list Q) :
  length xs = length rhos ->
  Forall (fun x => 0 <= x < 1) rhos ->
  Forall2 (fun x t => 1 - x ^ 2 <= t < 1 - x ^ 2 + 0.5) xs
          (zip_with Qplus (conductive <$> xs) (Qmult 0.5 <$> rhos)).
Proof.
  revert rhos. induction xs as [|x xs IH]; intros [|rho rhos] len all;
    try discriminate; cbn; constructor.
  - apply Forall_cons in all as [[lo hi] _].
    unfold conductive. change (x ^ 2) with (x * x). generalize (x * x). intros a. lra.
  - apply IH; [now injection len | now apply Forall_cons in all].
Qed.

Lemma init_T_spec (inp : Inputs) (fs fs' : gmap string Field) :
  init_T inp fs = Some fs' ->
  length (rand (seed inp) (ball_size inp)) = length (broadcast_r inp)
  /\ fs' = <["T"%string :=
             mkField Grid [zip_with Qplus (conductive <$> broadcast_r inp) (perturbation inp)]]> fs.
Proof.
  unfold init_T, iadd_grid_scalar, set_grid, require_grid_space, add_rows. cbn.
  destruct (fs !! "T"%string) as [f|]; [cbn|discriminate].
  destruct (decide _) as [len|]; [cbn|discriminate].
  intros [= <-]. split; [|reflexivity].
  unfold perturbation in len. rewrite !length_fmap in len. congruence.
Qed.

Lemma restart_argv (args : list string) :
  restart args = true <-> exists script rest, args = script :: "--restart"%string :: rest.
Proof.
  destruct args as [|script args].
  - split; [discriminate | intros (? & ? & ?); discriminate].
  - rewrite restart_iff. split.
    + intros [rest ->]. eauto.
    + intros (? & rest & [= _ ->]). eauto.
Qed.

(** C10.  Restart mode is on exactly when [sys.argv] has an element after
    the script name and that first argument is ['--restart'].  When the
    initialisation succeeds: in restart mode the stop time is 20 and the
    step size, the CFL controller's step, the simulation time and the
    iteration are those of the checkpoint file, [load_state] returning its
    write number and step size; otherwise the stop time is 10.01, [dt] is
    0.05 and, the random numbers lying in [[0, 1)], the value of the
    initial temperature at every grid point of radius [x] lies in
    [[1 - x^2, 1 - x^2 + 0.5)]. *)
Theorem restart_modes (inp : Inputs) (st : Run) :
  script_init inp = Some st ->
  Forall (fun x => 0 <= x < 1) (rand (seed inp) (ball_size inp)) ->
  (restart (argv inp) = true <->
   exists script rest, argv inp = script :: "--restart"%string :: rest)
  /\ if restart (argv inp)
     then stop_sim_time (solver st) = Some 20
          /\ exists ck, files inp "checkpoints/checkpoints_s11.h5" = Some ck
               /\ dt st = ck_dt ck
               /\ cfl st = new_CFL (ck_dt ck)
               /\ sim_time (solver st) = ck_sim_time ck
               /\ iteration (solver st) = ck_iteration ck
               /\ forall s fs,
                    (fun '(write, dt, _, _) => (write, dt))
                      <$> load_state inp "checkpoints/checkpoints_s11.h5" s fs
                    = Some (ck_write ck, ck_dt ck)
     else stop_sim_time (solver st) = Some 10.01
          /\ dt st = 0.05
          /\ cfl st = new_CFL 0.05
          /\ exists row, fields st !! "T"%string = Some (mkField Grid [row])
               /\ Forall2 (fun x t => 1 - x ^ 2 <= t < 1 - x ^ 2 + 0.5)
                          (broadcast_r inp) row.
Proof.
  intros init unit_interval. split; [apply restart_argv|].
  unfold script_init in init.
  destruct (set_r_vec inp (new_fields inp)) as [fs|]; [cbn in init|discriminate].
  destruct (restart (argv inp)); cbn in init.
  - unfold load_state in init |- *.
    destruct (files inp _) as [ck|]; [cbn in init|discriminate].
    injection init as <-. cbn. split; [reflexivity|].
    exists ck. repeat split; reflexivity.
  - destruct (init_T inp fs) as [fs'|] eqn:eT; [cbn in init|discriminate].
    injection init as <-. cbn. repeat split.
    apply init_T_spec in eT as [len ->].
    eexists. split; [apply lookup_insert_eq|].
    apply perturbed_interval; [congruence | exact unit_interval].
Qed.
End ScriptProperties.

Lemma restart_modes_witness :
  let fresh := demo_inputs [] in
  let again := demo_inputs ["--restart"%string; "-v"%string] in
  (restart (argv fresh) = false
   /\ exists st, @script_init still fresh = Some st
       /\ stop_sim_time (solver st) = Some 10.01 /\ dt st = 0.05
       /\ exists row, fields st !! "T"%string = Some (mkField Grid [row])
            /\ Forall2 (fun x t => 1 - x ^ 2 <= t < 1 - x ^ 2 + 0.5)
                       (@broadcast_r fresh) row)
  /\ (restart (argv again) = true
      /\ exists st, @script_init still again = Some st
          /\ stop_sim_time (solver st) = Some 20 /\ dt st = 0.01).
Proof.
  intros fresh again. split.
  - split; [reflexivity|].
    destruct (@script_init still fresh) as [st|] eqn:init; [|vm_compute in init; discriminate].
    exists st. split; [reflexivity|].
    assert (unit_interval : Forall (fun x => 0 <= x < 1)
                              (@rand still (seed fresh) (ball_size fresh))).
    { vm_compute. repeat constructor; discriminate. }
    destruct (@restart_modes still fresh st init unit_interval) as [_ mode].
    change (restart (argv fresh)) with false in mode.
    destruct mode as (stop & step & _ & temp). auto.
  - split; [reflexivity|].
    destruct (@script_init still again) as [st|] eqn:init; [|vm_compute in init; discriminate].
    exists st. split; [reflexivity|].
    assert (unit_interval : Forall (fun x => 0 <= x < 1)
                              (@rand still (seed again) (ball_size again))).
    { vm_compute. repeat constructor; discriminate. }
    destruct (@restart_modes still again st init unit_interval) as [_ mode].
    change (restart (argv again)) with true in mode.
    destruct mode as (stop & ck & file & step & _). split; [exact stop|].
    rewrite step. vm_compute in file. injection file as <-. reflexivity.
Defined.


(** ** The body of the main loop *)

Section LoopProperties.
Context `{Kernels}.

(** The step size a pass takes, as the CFL controller returns it. *)
Lemma loop_body_dt (st : Run) :
  dt (loop_body st)
  = (compute_timestep (cfl st) (iteration (solver st)) (courant_samples (fields st))).1.
Proof.
  unfold loop_body. destruct (compute_timestep _ _ _) as [d k].
  destruct (step _ _ _) as [s fs]. destruct (symmetrize _ _). reflexivity.
Qed.

Lemma loop_body_cfl (st : Run) :
  cfl (loop_body st)
  = (compute_timestep (cfl st) (iteration (solver st)) (courant_samples (fields st))).2.
Proof.
  unfold loop_body. destruct (compute_timestep _ _ _) as [d k].
  destruct (step _ _ _) as [s fs]. destruct (symmetrize _ _). reflexivity.
Qed.

Lemma loop_body_solver (st : Run) :
  solver (loop_body st) = (step (dt (loop_body st)) (solver st) (fields st)).1.
Proof.
  rewrite loop_body_dt. unfold loop_body. destruct (compute_timestep _ _ _) as [d k].
  cbn [fst]. destruct (step _ _ _) as [s fs]. destruct (symmetrize _ _). reflexivity.
Qed.

Lemma loop_body_fields (st : Run) :
  fields (loop_body st) = (symmetrize (solver (loop_body st)) (stepped_fields st)).1.
Proof.
  unfold stepped_fields. rewrite loop_body_solver. rewrite loop_body_dt.
  unfold loop_body. destruct (compute_timestep _ _ _) as [d k].
  cbn [fst]. destruct (step _ _ _) as [s fs]. cbn [fst snd].
  destruct (symmetrize _ _). reflexivity.
Qed.

Lemma loop_body_trace (st : Run) :
  trace (loop_body st)
  = trace st ++ EvCFL (dt (loop_body st)) :: EvStep (dt (loop_body st))
      :: log_progress (solver (loop_body st)) (dt (loop_body st))
      ++ (symmetrize (solver (loop_body st)) (stepped_fields st)).2.
Proof.
  unfold stepped_fields. rewrite loop_body_solver. rewrite loop_body_dt.
  unfold loop_body. destruct (compute_timestep _ _ _) as [d k].
  cbn [fst]. destruct (step _ _ _) as [s fs]. cbn [fst snd].
  destruct (symmetrize _ _). reflexivity.
Qed.

Lemma step_solver (d : Q) (s : Solver) (fs : gmap string Field) :
  (step d s fs).1
  = mkSolver (sim_time s + d) (iteration s + 1)%Z (stop_sim_time s) (stop_iteration s)
             (state s) (imex_update d (kernel s) fs).1.
Proof. unfold step. destruct (imex_update _ _ _). reflexivity. Qed.

Lemma step_fields (d : Q) (s : Solver) (fs : gmap string Field) :
  (step d s fs).2 = write_state (imex_update d (kernel s) fs).2 (state s) fs.
Proof. unfold step. destruct (imex_update _ _ _). reflexivity. Qed.

Lemma pass_events_eq (st : Run) :
  pass_events st
  = EvCFL (dt (loop_body st)) :: EvStep (dt (loop_body st))
      :: log_progress (solver (loop_body st)) (dt (loop_body st))
      ++ (symmetrize (solver (loop_body st)) (stepped_fields st)).2.
Proof. unfold pass_events. rewrite loop_body_trace. apply drop_app_length. Qed.

Lemma lookup_write_state (new : string -> list (list Q)) (names : list string)
    (fs : gmap string Field) (name : string) :
  write_state new names fs !! name
  = if decide (name ∈ names) then Some (mkField Coeff (new name)) else fs !! name.
Proof.
  induction names as [|a names IH].
  - cbn. destruct (decide _) as [mem|]; [|reflexivity]. now apply elem_of_nil in mem.
  - change (write_state new (a :: names) fs)
      with (<[a := mkField Coeff (new a)]> (write_state new names fs)).
    rewrite lookup_insert. destruct (decide (a = name)) as [->|ne].
    + rewrite decide_True by (apply elem_of_cons; now left). reflexivity.
    + rewrite IH. destruct (decide (name ∈ names)) as [mem|nmem].
      * rewrite decide_True by (apply elem_of_cons; now right). reflexivity.
      * rewrite decide_False; [reflexivity|].
        intros [e|mem]%elem_of_cons; [congruence | tauto].
Qed.

Lemma require_grid_space_idemp (f : Field) :
  require_grid_space (require_grid_space f) = require_grid_space f.
Proof. destruct f as [[] d]; reflexivity. Qed.

Lemma require_grid_space_layout (f : Field) :
  field_layout (require_grid_space f) = Grid.
Proof. destruct f as [[] d]; reflexivity. Qed.

Lemma lookup_require_grid_all (names : list string) (fs : gmap string Field) (name : string) :
  require_grid_all names fs !! name
  = if decide (name ∈ names) then require_grid_space <$> fs !! name else fs !! name.
Proof.
  induction names as [|a names IH].
  - cbn. destruct (decide _) as [mem|]; [|reflexivity]. now apply elem_of_nil in mem.
  - change (require_grid_all (a :: names) fs)
      with (alter require_grid_space a (require_grid_all names fs)).
    rewrite lookup_alter. destruct (decide (a = name)) as [->|ne].
    + rewrite decide_True by (apply elem_of_cons; now left).
      rewrite IH. destruct (decide _); [|reflexivity].
      destruct (fs !! name); cbn; [|reflexivity].
      now rewrite require_grid_space_idemp.
    + rewrite IH. destruct (decide (name ∈ names)) as [mem|nmem].
      * rewrite decide_True by (apply elem_of_cons; now right). reflexivity.
      * rewrite decide_False; [reflexivity|].
        intros [e|mem]%elem_of_cons; [congruence | tauto].
Qed.

Lemma filter_control_log (s : Solver) (d : Q) :
  List.filter is_control (log_progress s d) = [].
Proof. unfold log_progress. now destruct (decide _). Qed.

Lemma filter_control_require (names : list string) :
  List.filter is_control (EvRequireGrid <$> names) = [].
Proof. induction names; [reflexivity | assumption]. Qed.

Lemma filter_require_log (s : Solver) (d : Q) :
  List.filter is_require (log_progress s d) = [].
Proof. unfold log_progress. now destruct (decide _). Qed.

Lemma filter_require_require (names : list string) :
  List.filter is_require (EvRequireGrid <$> names) = EvRequireGrid <$> names.
Proof. induction names; [reflexivity | cbn; now f_equal]. Qed.

(** What holds at the head of every pass holds along a run. *)
Lemma passes_Forall (P : Run -> Prop) (n : nat) (st : Run) :
  (forall s, P s) -> Forall P (passes n st).
Proof.
  intros all. revert st. induction n as [|n IH]; intros st; cbn; [constructor|].
  destruct (proceed _); [|constructor]. constructor; [apply all | apply IH].
Qed.

Lemma passes_invariant (I : Run -> Prop) (n : nat) (st : Run) :
  (forall s, I s -> I (loop_body s)) -> I st -> Forall I (passes n st) /\ I (run n st).
Proof.
  intros keep. revert st. induction n as [|n IH]; intros st init; cbn.
  - split; [constructor | exact init].
  - destruct (proceed _).
    + destruct (IH (loop_body st) (keep st init)) as [all last].
      split; [now constructor | exact last].
    + split; [constructor | exact init].
Qed.

Lemma run_trace (n : nat) (st : Run) :
  trace (run n st) = trace st ++ concat (pass_events <$> passes n st).
Proof.
  revert st. induction n as [|n IH]; intros st; cbn.
  - now rewrite app_nil_r.
  - destruct (proceed _); cbn; [|now rewrite app_nil_r].
    rewrite IH, app_assoc. f_equal.
    rewrite pass_events_eq. apply loop_body_trace.
Qed.

End LoopProperties.

(** ** The CFL controller in the main loop *)

Section CFLProperties.
Context `{Kernels}.

Lemma compute_timestep_cap (k : CFL) (it : Z) (samples : list (Q * Q)) :
  (compute_timestep k it samples).1 <= max_dt k.
Proof. apply Q.le_min_r. Qed.

Lemma compute_timestep_new_CFL (d0 : Q) (it : Z) (samples : list (Q * Q)) :
  (compute_timestep (new_CFL d0) it samples).2
  = new_CFL (compute_timestep (new_CFL d0) it samples).1.
Proof. reflexivity. Qed.

(** Up to hysteresis the step stays below the Courant bound: either the
    bound was taken over (and capped), or the previous step was kept
    because the bound lies within the fraction [threshold] of it. *)
Lemma compute_timestep_courant (k : CFL) (it : Z) (samples : list (Q * Q)) (b : Q) :
  (it mod cadence k = 0)%Z ->
  threshold k <= 1 ->
  courant_bound k samples = Some b ->
  (compute_timestep k it samples).1 <= b
  \/ (1 - threshold k) * (compute_timestep k it samples).1 <= b.
Proof.
  intros due small bound. unfold compute_timestep. cbn [fst].
  rewrite decide_True by exact due. rewrite bound. cbn [default].
  unfold hysteresis. destruct (Qlt_le_dec _ _) as [far|near].
  - left. apply Q.le_min_l.
  - right. apply Qabs_Qle_condition in near as [lo _].
    pose proof (Q.le_min_l (stored_dt k) (max_dt k)) as cap.
    revert cap lo small. generalize (Qmin (stored_dt k) (max_dt k)).
    generalize (threshold k), (stored_dt k). intros t s d cap lo small.
    assert (0 <= (1 - t) * (s - d)) by (apply Qmult_le_0_compat; lra).
    unfold id in lo. lra.
Qed.

Lemma script_cfl_kept (s : Run) :
  (exists d, cfl s = new_CFL d) -> exists d, cfl (loop_body s) = new_CFL d.
Proof.
  intros [d e]. rewrite loop_body_cfl, e, compute_timestep_new_CFL. eauto.
Qed.

Lemma pass_control_events (s : Run) :
  List.filter is_control (pass_events s)
  = [EvCFL (dt (loop_body s)); EvStep (dt (loop_body s))].
Proof.
  rewrite pass_events_eq. cbn [List.filter is_control]. do 2 f_equal.
  rewrite List.filter_app, filter_control_log. cbn [app].
  unfold symmetrize. destruct (decide _); [apply filter_control_require | reflexivity].
Qed.

Lemma control_events_concat (l : list Run) :
  List.filter is_control (concat (pass_events <$> l))
  = concat ((fun s => [EvCFL (dt (loop_body s)); EvStep (dt (loop_body s))]) <$> l).
Proof.
  induction l as [|s l IH]; [reflexivity|].
  cbn [fmap list_fmap concat]. rewrite List.filter_app, pass_control_events, IH.
  reflexivity.
Qed.

(** C2.  Along any run of the main loop that starts with the script's
    CFL controller (whatever its initial step), in every pass: the step
    [dt] handed to [solver.step] is at most [max_dt = 0.05]; where the
    Courant bound [b = safety * min(grid_spacing / |velocity|)] is defined,
    [dt <= b], or the previous step was kept by hysteresis and then
    [(1 - threshold) * dt <= b] with [threshold = 0.1]; the controller is
    queried once, its answer is what [solver.step] receives, and the query
    comes first.  The time-step events of the whole run are one query
    followed by one step, pass after pass. *)
Theorem cfl_bound_respected (n : nat) (st : Run) (d0 : Q) :
  cfl st = new_CFL d0 ->
  Forall (fun s =>
            let d := dt (loop_body s) in
            max_dt (cfl s) = 0.05 /\ threshold (cfl s) = 0.1
            /\ d <= max_dt (cfl s)
            /\ (forall b,
                  courant_bound (cfl s) (courant_samples (fields s)) = Some b ->
                  d <= b \/ (1 - threshold (cfl s)) * d <= b)
            /\ List.filter is_control (pass_events s) = [EvCFL d; EvStep d]
            /\ solver (loop_body s) = (step d (solver s) (fields s)).1
            /\ sim_time (solver (loop_body s)) = sim_time (solver s) + d)
         (passes n st)
  /\ List.filter is_control (trace (run n st))
     = List.filter is_control (trace st)
       ++ concat ((fun s => [EvCFL (dt (loop_body s)); EvStep (dt (loop_body s))])
                    <$> passes n st).
Proof.
  intros script_cfl. split.
  - destruct (passes_invariant (fun s => exists d, cfl s = new_CFL d) n st
                script_cfl_kept (ex_intro _ d0 script_cfl)) as [all _].
    eapply Forall_impl; [exact all|]. clear. intros s [d0 k]. cbn zeta.
    split; [now rewrite k|]. split; [now rewrite k|].
    split; [rewrite loop_body_dt; apply compute_timestep_cap|].
    split; [|split; [apply pass_control_events|]].
    + intros b bound. rewrite loop_body_dt. apply compute_timestep_courant.
      * rewrite k. apply Z.mod_1_r.
      * rewrite k. cbn. lra.
      * exact bound.
    + split; [apply loop_body_solver|].
      rewrite loop_body_solver, step_solver. reflexivity.
  - rewrite run_trace, List.filter_app, control_events_concat. reflexivity.
Qed.

End CFLProperties.

Lemma cfl_bound_respected_witness :
  exists st,
    @script_init doubling (demo_inputs []) = Some st
    /\ cfl st = new_CFL 0.05
    /\ List.filter is_control (trace (@run doubling 3 st))
       = [EvCFL 0.05; EvStep 0.05; EvCFL (35 # 1400); EvStep (35 # 1400);
          EvCFL (35 # 2800); EvStep (35 # 2800)]
    /\ Forall (fun s => @dt doubling (@loop_body doubling s) <= 0.05)
              (@passes doubling 3 st).
Proof.
  destruct (@script_init doubling (demo_inputs [])) as [st|] eqn:init;
    [|vm_compute in init; discriminate].
  exists st. split; [reflexivity|].
  assert (k : cfl st = new_CFL 0.05) by (vm_compute in init; now injection init as <-).
  split; [exact k|].
  destruct (@cfl_bound_respected doubling 3 st 0.05 k) as [all events].
  split.
  - rewrite events. vm_compute in init. injection init as <-. vm_compute. reflexivity.
  - eapply Forall_impl; [exact all|]. intros s (cap & _ & le & _). cbn zeta in le.
    now rewrite cap in le.
Defined.

(** ** Hermitian symmetry in the main loop *)

Section SymmetryProperties.
Context `{Kernels}.

Lemma hermitian_iterations (i : Z) :
  (i mod hermitian_cadence)%Z ∈ [0; 1]%Z
  <-> exists k, (i = 100 * k \/ i = 100 * k + 1)%Z.
Proof.
  unfold hermitian_cadence. rewrite !elem_of_cons, elem_of_nil. split.
  - intros [e|[e|[]]]; exists (i / 100)%Z;
      pose proof (Z.div_mod i 100 ltac:(lia)); lia.
  - intros [k [-> | ->]].
    + left. rewrite Z.mul_comm. apply Z.mod_mul. lia.
    + right. left. rewrite Z.mul_comm, Z.add_comm, Z.mod_add by lia. reflexivity.
Qed.

(** C6.  In every pass of the main loop, with [i] the iteration counter
    after [solver.step]: when [i % 100] is 0 or 1, [require_grid_space] is
    applied to every field of [solver.state] (each then holds grid data),
    every other field is as the step left it, and the pass records one
    call per state field, in order; otherwise the fields are exactly as
    the step left them and no call is made.  The iterations with
    [i % 100] in [{0, 1}] are the pairs [100 k], [100 k + 1]. *)
Theorem hermitian_symmetry_cadence (n : nat) (st : Run) :
  Forall (fun s =>
            let s' := loop_body s in
            let i := iteration (solver s') in
            i = (iteration (solver s) + 1)%Z
            /\ state (solver s') = state (solver s)
            /\ if decide ((i mod 100)%Z ∈ [0; 1]%Z)
               then (forall name,
                       fields s' !! name
                       = if decide (name ∈ state (solver s))
                         then require_grid_space <$> stepped_fields s !! name
                         else stepped_fields s !! name)
                    /\ (forall name f,
                          name ∈ state (solver s) -> fields s' !! name = Some f ->
                          field_layout f = Grid)
                    /\ List.filter is_require (pass_events s)
                       = EvRequireGrid <$> state (solver s)
               else fields s' = stepped_fields s
                    /\ List.filter is_require (pass_events s) = [])
         (passes n st)
  /\ (forall i, (i mod 100)%Z ∈ [0; 1]%Z
                <-> exists k, (i = 100 * k \/ i = 100 * k + 1)%Z).
Proof.
  split; [|exact hermitian_iterations].
  apply passes_Forall. intros s. cbn zeta.
  assert (it : iteration (solver (loop_body s)) = (iteration (solver s) + 1)%Z)
    by (rewrite loop_body_solver, step_solver; reflexivity).
  assert (names : state (solver (loop_body s)) = state (solver s))
    by (rewrite loop_body_solver, step_solver; reflexivity).
  split; [exact it|]. split; [exact names|].
  assert (events : List.filter is_require (pass_events s)
                   = List.filter is_require
                       (symmetrize (solver (loop_body s)) (stepped_fields s)).2).
  { rewrite pass_events_eq. cbn [List.filter is_require].
    now rewrite List.filter_app, filter_require_log. }
  rewrite events, loop_body_fields. unfold symmetrize, hermitian_cadence.
  destruct (decide _) as [sym|nosym]; cbn [fst snd].
  - rewrite names. split; [|split].
    + intros name. apply lookup_require_grid_all.
    + intros name f mem. rewrite lookup_require_grid_all, decide_True by exact mem.
      destruct (stepped_fields s !! name) as [g|]; [|discriminate].
      intros [= <-]. apply require_grid_space_layout.
    + apply filter_require_require.
  - split; reflexivity.
Qed.

End SymmetryProperties.

(** ** The radial coefficient field *)

Section RadialVector.
Context `{Kernels}.

(** A pass writes the solver's state fields and nothing else. *)
Lemma loop_body_frame (s : Run) (name : string) :
  name ∉ state (solver s) -> fields (loop_body s) !! name = fields s !! name.
Proof.
  intros other. rewrite loop_body_fields. unfold symmetrize.
  assert (names : state (solver (loop_body s)) = state (solver s))
    by (rewrite loop_body_solver, step_solver; reflexivity).
  assert (stepped : stepped_fields s !! name = fields s !! name).
  { unfold stepped_fields. rewrite step_fields, lookup_write_state.
    now rewrite decide_False. }
  destruct (decide _); cbn [fst]; [|exact stepped].
  rewrite lookup_require_grid_all, names, decide_False by exact other. exact stepped.
Qed.

Lemma run_frame (n : nat) (st : Run) (name : string) :
  name ∉ state (solver st) -> fields (run n st) !! name = fields st !! name.
Proof.
  intros other.
  destruct (passes_invariant
              (fun s => state (solver s) = state (solver st)
                        /\ fields s !! name = fields st !! name) n st) as [_ [_ e]];
    [|split; reflexivity|exact e].
  intros s [names same]. split.
  - rewrite loop_body_solver, step_solver. exact names.
  - rewrite loop_body_frame by (now rewrite names). exact same.
Qed.

Lemma r_vec_not_variable : "r_vec"%string ∉ Convection.variables.
Proof.
  unfold Convection.variables. rewrite !elem_of_cons, elem_of_nil.
  intros mem. repeat (destruct mem as [mem|mem]; [discriminate|]). exact mem.
Qed.

Lemma set_r_vec_spec (inp : Inputs) (fs : gmap string Field) :
  set_r_vec inp (new_fields inp) = Some fs ->
  fs !! "r_vec"%string
  = Some (mkField Grid (<[2%nat := r inp]> (to_grid (replicate 3 (zeros (length (r inp))))))).
Proof.
  unfold set_r_vec, new_fields. rewrite lookup_insert_eq. cbn.
  unfold set_grid_component. cbn. destruct (decide _); [cbn|discriminate].
  intros [= <-]. apply lookup_insert_eq.
Qed.

Lemma script_init_spec (inp : Inputs) (st : Run) :
  script_init inp = Some st ->
  state (solver st) = Convection.variables
  /\ fields st !! "r_vec"%string
     = Some (mkField Grid (<[2%nat := r inp]> (to_grid (replicate 3 (zeros (length (r inp))))))).
Proof.
  unfold script_init.
  destruct (set_r_vec inp (new_fields inp)) as [fs|] eqn:e1; [cbn|discriminate].
  apply set_r_vec_spec in e1.
  destruct (restart (argv inp)); cbn.
  - unfold load_state. destruct (files inp _) as [ck|]; [cbn|discriminate].
    intros [= <-]. cbn [fields solver state]. split; [reflexivity|].
    rewrite !lookup_insert_ne by discriminate. exact e1.
  - destruct (init_T inp fs) as [fs'|] eqn:eT; [cbn|discriminate].
    apply init_T_spec in eT as [_ ->].
    intros [= <-]. cbn [fields solver state]. split; [reflexivity|].
    rewrite lookup_insert_ne by discriminate. exact e1.
Qed.

Lemma all_zero_zeros (n : nat) : all_zero (zeros n).
Proof. induction n; constructor; [reflexivity | assumption]. Qed.

Lemma all_zero_broadcast (m n : nat) : all_zero (concat (replicate m (zeros n))).
Proof.
  induction m as [|m IH]; [constructor|]. cbn.
  apply Forall_app. split; [apply all_zero_zeros | exact IH].
Qed.

Lemma all_zero_product (zs ts : list Q) :
  all_zero zs -> all_zero (zip_with Qmult zs ts).
Proof.
  intros z. revert ts. induction z as [|q zs q0 _ IH]; intros [|t ts]; cbn;
    try constructor; [|apply IH].
  rewrite q0. apply Qmult_0_l.
Qed.

(** C9.  The third coordinate is the radius.  After the initialisation,
    and after any number of passes of the main loop, [r_vec] holds grid data
    whose components 0 and 1 are zero and whose component 2 is the radial
    grid [r], provided the transform of the zero buffer is zero; so in the
    product [r_vec*T] the components 0 and 1 vanish at every grid point,
    whatever [T] is. *)
Theorem r_vec_radial (inp : Inputs) (st0 : Run) (n : nat) :
  script_init inp = Some st0 ->
  to_grid (replicate 3 (zeros (length (r inp)))) = replicate 3 (zeros (length (r inp))) ->
  c !! 2%nat = Some "r"%string
  /\ fields (run n st0) !! "r_vec"%string
     = Some (mkField Grid [zeros (length (r inp)); zeros (length (r inp)); r inp])
  /\ forall T_grid,
       exists along_phi along_theta,
         ncc_product inp [zeros (length (r inp)); zeros (length (r inp)); r inp] T_grid
         = [along_phi; along_theta; zip_with Qmult (broadcast_r inp) T_grid]
         /\ all_zero along_phi /\ all_zero along_theta.
Proof.
  intros init zero. split; [reflexivity|].
  apply script_init_spec in init as [names r_vec]. split.
  - rewrite run_frame by (rewrite names; apply r_vec_not_variable).
    rewrite r_vec, zero. reflexivity.
  - intros T_grid. do 2 eexists. split; [reflexivity|].
    split; apply all_zero_product, all_zero_broadcast.
Qed.

Lemma broadcast_r_length (inp : Inputs) : length (broadcast_r inp) = ball_size inp.
Proof.
  unfold broadcast_r, ball_size. induction (S2_size inp) as [|m IH]; [reflexivity|].
  cbn. rewrite length_app, IH. reflexivity.
Qed.

(** The initialisation raises no exception: when the transform keeps the
    three components of the fresh [r_vec], and in a fresh start the random
    array has the shape asked for, in a restart the checkpoint file
    exists. *)
Lemma script_init_succeeds (inp : Inputs) :
  length (to_grid (replicate 3 (zeros (length (r inp))))) = 3%nat ->
  (if restart (argv inp)
   then is_Some (files inp "checkpoints/checkpoints_s11.h5")
   else length (rand (seed inp) (ball_size inp)) = ball_size inp) ->
  is_Some (script_init inp).
Proof.
  intros shape mode. unfold script_init.
  assert (e1 : is_Some (set_r_vec inp (new_fields inp))).
  { unfold set_r_vec, new_fields. rewrite lookup_insert_eq. cbn.
    unfold set_grid_component. cbn in shape |- *. rewrite shape. cbn. eauto. }
  destruct e1 as [fs e1]. rewrite e1. cbn.
  destruct (restart (argv inp)); cbn.
  - unfold load_state. destruct mode as [ck ->]. cbn. eauto.
  - assert (eT : is_Some (init_T inp fs)).
    { assert (T0 : is_Some (fs !! "T"%string)).
      { unfold set_r_vec in e1.
        destruct (new_fields inp !! "r_vec"%string); [cbn in e1|discriminate].
        destruct (set_grid_component _ _ _); [cbn in e1|discriminate].
        injection e1 as <-. rewrite lookup_insert_ne by discriminate.
        unfold new_fields. rewrite !lookup_insert_ne by discriminate.
        rewrite lookup_insert_eq. eauto. }
      destruct T0 as [f T0]. unfold init_T. rewrite T0. cbn.
      unfold iadd_grid_scalar, set_grid, add_rows. cbn.
      rewrite decide_True; [cbn; eauto|].
      unfold perturbation. rewrite !length_fmap, broadcast_r_length. now symmetry. }
    destruct eT as [fs' ->]. cbn. eauto.
Qed.

End RadialVector.

Lemma r_vec_radial_witness :
  exists st0,
    @script_init still (demo_inputs []) = Some st0
    /\ fields (@run still 7 st0) !! "r_vec"%string
       = Some (mkField Grid [[0; 0]; [0; 0]; [1 # 4; 3 # 4]]).
Proof.
  destruct (@script_init still (demo_inputs [])) as [st0|] eqn:init;
    [|vm_compute in init; discriminate].
  exists st0. split; [reflexivity|].
  exact (proj1 (proj2 (@r_vec_radial still (demo_inputs []) st0 7 init eq_refl))).
Defined.

(** ** Progress and termination of the main loop *)

Section Termination.
Context `{Kernels}.

Lemma run_stopped (n : nat) (st : Run) :
  proceed (solver st) = false -> run n st = st.
Proof. intros stop. destruct n; cbn; [reflexivity | now rewrite stop]. Qed.

Lemma run_continues (n : nat) (st : Run) :
  proceed (solver st) = true -> run (S n) st = run n (loop_body st).
Proof. intros go. cbn. now rewrite go. Qed.

Lemma loop_body_sim_time (st : Run) :
  sim_time (solver (loop_body st)) = sim_time (solver st) + dt (loop_body st).
Proof. rewrite loop_body_solver, step_solver. reflexivity. Qed.

Lemma loop_body_stop (st : Run) :
  stop_sim_time (solver (loop_body st)) = stop_sim_time (solver st)
  /\ stop_iteration (solver (loop_body st)) = stop_iteration (solver st).
Proof. rewrite loop_body_solver, step_solver. split; reflexivity. Qed.

Lemma run_stop (n : nat) (st : Run) :
  stop_sim_time (solver (run n st)) = stop_sim_time (solver st)
  /\ stop_iteration (solver (run n st)) = stop_iteration (solver st).
Proof.
  apply (passes_invariant
           (fun s => stop_sim_time (solver s) = stop_sim_time (solver st)
                     /\ stop_iteration (solver s) = stop_iteration (solver st)));
    [|split; reflexivity].
  intros s [e1 e2]. destruct (loop_body_stop s) as [-> ->]. now split.
Qed.

Lemma proceed_before (s : Solver) (t : Q) :
  stop_sim_time s = Some t -> proceed s = true -> sim_time s < t.
Proof.
  unfold proceed. intros ->. destruct (Qlt_le_dec _ _); [trivial | discriminate].
Qed.

Lemma proceed_false (s : Solver) (t : Q) :
  stop_sim_time s = Some t -> proceed s = false ->
  t <= sim_time s
  \/ exists m, stop_iteration s = Some m /\ (m <= iteration s)%Z.
Proof.
  unfold proceed. intros ->. destruct (Qlt_le_dec _ _) as [|le]; [|now left].
  cbn. destruct (stop_iteration s) as [m|]; [|discriminate].
  rewrite bool_decide_eq_false. intros ge. right. exists m. split; [reflexivity | lia].
Qed.




End Termination.


(** ** A run that never reaches the stop time *)

Lemma doubling_speed (q w : Q) :
  0 < q -> w * q == 14 -> 0 < w /\ 1 / Qabs w == q / 14.
Proof.
  intros pos e.
  assert (w_pos : 0 < w).
  { destruct (Qlt_le_dec 0 w) as [|le]; [assumption|].
    assert (0 <= (- w) * q) by (apply Qmult_le_0_compat; lra). lra. }
  split; [exact w_pos|].
  rewrite Qabs_pos by lra.
  assert (w14 : w == 14 / q) by (rewrite <- e; field; lra).
  rewrite w14. field. lra.
Qed.

Lemma zeno_step (q : Q) (st : @Run doubling) :
  zeno_invariant q st ->
  @proceed doubling (solver st) = true
  /\ 0 < dt (@loop_body doubling st)
  /\ zeno_invariant (q * (1 # 2)) (@loop_body doubling st).
Proof.
  intros (pos & le1 & (lay & w & rest & rows & u & speed) & k & stored & now
          & stop & nolimit & names).
  destruct (doubling_speed q w pos speed) as [w_pos inv].
  split.
  { unfold proceed. rewrite stop, nolimit.
    destruct (Qlt_le_dec _ _); [reflexivity | lra]. }
  assert (samples : @courant_samples doubling (fields st) = [(1, Qabs w)]).
  { cbn. rewrite u. reflexivity. }
  assert (bq : 0.35 * (1 / Qabs w) == 0.025 * q) by (rewrite inv; field).
  assert (step_dt : dt (@loop_body doubling st) == 0.025 * q).
  { rewrite (@loop_body_dt doubling), samples, k.
    unfold compute_timestep, new_CFL. cbn [fst cadence max_dt].
    rewrite decide_True by apply Z.mod_1_r.
    unfold courant_bound, min_ratio, ratio, hysteresis.
    cbn [foldr fst snd safety threshold stored_dt max_dt].
    destruct (Qlt_le_dec 0 (Qabs w)) as [|bad];
      [|rewrite Qabs_pos in bad by lra; lra].
    cbn [omin fmap option_fmap option_map default].
    revert bq. generalize (0.35 * (1 / Qabs w)). intros b bq.
    destruct (Qlt_le_dec _ _) as [far|near].
    - rewrite Q.min_l by (unfold id; lra). exact bq.
    - apply Qabs_Qle_condition in near as [lo _]. unfold id in lo. lra. }
  split; [lra|].
  split; [lra|]. split; [lra|]. split; [|split; [|split; [|split; [|split; [|split]]]]].
  - rewrite (@loop_body_fields doubling). unfold symmetrize.
    assert (stepped : exists w', @stepped_fields doubling st !! "u"%string
                        = Some (mkField Coeff
                                  ((w' :: ((fun v => if Qeq_bool v 0 then 14 else 2 * v) <$> rest))
                                     :: (fmap (M := list) (fun v => if Qeq_bool v 0 then 14 else 2 * v) <$> rows)))
                        /\ w' == 2 * w).
    { exists (if Qeq_bool w 0 then 14 else 2 * w). split.
      - unfold stepped_fields. rewrite (@step_fields doubling), lookup_write_state.
        rewrite names, decide_True
          by (unfold Convection.variables; apply elem_of_cons; now left).
        cbn. rewrite u. reflexivity.
      - destruct (Qeq_bool w 0) eqn:z; [|reflexivity].
        apply Qeq_bool_iff in z. lra. }
    destruct stepped as (w' & stepped & double).
    assert (half : w' * (q * (1 # 2)) == 14) by (rewrite double, <- speed; ring).
    destruct (decide _); cbn [fst].
    + rewrite (@lookup_require_grid_all doubling), stepped.
      destruct (decide _); cbn; eauto 10.
    + rewrite stepped. eauto 10.
  - rewrite (@loop_body_cfl doubling), k. reflexivity.
  - rewrite (@loop_body_cfl doubling), k.
    change (stored_dt (compute_timestep (new_CFL ?d) ?i ?s).2)
      with (compute_timestep (new_CFL d) i s).1.
    rewrite <- k, <- (@loop_body_dt doubling), step_dt. field.
  - rewrite (@loop_body_sim_time doubling), step_dt, now. field.
  - rewrite (proj1 (@loop_body_stop doubling st)). exact stop.
  - rewrite (proj2 (@loop_body_stop doubling st)). exact nolimit.
  - rewrite (@loop_body_solver doubling), (@step_solver doubling). exact names.
Qed.

Lemma zeno_run (n : nat) (q : Q) (st : @Run doubling) :
  zeno_invariant q st -> exists q', zeno_invariant q' (@run doubling n st).
Proof.
  revert q st. induction n as [|n IH]; intros q st inv; [now exists q|].
  destruct (zeno_step q st inv) as (go & _ & next).
  rewrite (@run_continues doubling) by exact go. eapply IH, next.
Qed.

(** Why the lower bound on the steps is asked for: positive steps alone
    do not bound the number of passes.  Under the kernels [doubling] the
    script starts normally, every step the CFL controller hands out is
    positive, and yet the simulation time stays below 0.1, so that the main
    loop is still running after any number of passes.  This is a run of the
    model under kernels chosen for the purpose, not of the framework's
    solver. *)
Lemma main_loop_zeno :
  exists st0,
    @script_init doubling (demo_inputs []) = Some st0
    /\ stop_sim_time (solver st0) = Some 10.01
    /\ (forall n, 0 < dt (@loop_body doubling (@run doubling n st0)))
    /\ (forall n, sim_time (solver (@run doubling n st0)) < 0.1)
    /\ forall fuel, @main_loop doubling fuel st0 = None.
Proof.
  destruct (@script_init doubling (demo_inputs [])) as [st0|] eqn:init;
    [|vm_compute in init; discriminate].
  exists st0. split; [reflexivity|].
  vm_compute in init. injection init as <-.
  match goal with |- stop_sim_time (solver ?s) = _ /\ _ => set (st0 := s) end.
  split; [reflexivity|].
  assert (go0 : @proceed doubling (solver st0) = true) by reflexivity.
  assert (inv1 : zeno_invariant 1 (@loop_body doubling st0)).
  { split; [reflexivity|]. split; [discriminate|]. split.
    - vm_compute. do 4 eexists. split; reflexivity.
    - repeat split; reflexivity. }
  assert (later : forall n, exists q, zeno_invariant q (@run doubling (S n) st0)).
  { intros n. rewrite (@run_continues doubling) by exact go0. eapply zeno_run, inv1. }
  split; [|split].
  - intros [|n]; [reflexivity|].
    destruct (later n) as [q inv]. apply (zeno_step q _ inv).
  - intros [|n]; [reflexivity|].
    destruct (later n) as [q (pos & _ & _ & _ & _ & now & _)]. lra.
  - intros [|n]; [reflexivity|].
    destruct (later n) as [q inv]. unfold main_loop.
    now rewrite (proj1 (zeno_step q _ inv)).
Qed.

(** * Further properties of the convection script *)

(** ** Logging and the bookkeeping of a run *)

Section Bookkeeping.
Context `{Kernels}.

Lemma filter_log_require (names : list string) :
  List.filter is_log (EvRequireGrid <$> names) = [].
Proof. induction names; [reflexivity | assumption]. Qed.

Lemma pass_log_events (s : Run) :
  List.filter is_log (pass_events s)
  = log_progress (solver (loop_body s)) (dt (loop_body s)).
Proof.
  rewrite pass_events_eq. cbn [List.filter is_log].
  rewrite List.filter_app.
  assert (sym : List.filter is_log
                  (symmetrize (solver (loop_body s)) (stepped_fields s)).2 = []).
  { unfold symmetrize. destruct (decide _); [apply filter_log_require | reflexivity]. }
  rewrite sym, app_nil_r.
  unfold log_progress. destruct (decide _); reflexivity.
Qed.

Lemma pass_require_events (s : Run) :
  List.filter is_require (pass_events s)
  = if decide ((iteration (solver (loop_body s)) mod hermitian_cadence)%Z ∈ [0; 1]%Z)
    then EvRequireGrid <$> state (solver s)
    else [].
Proof.
  rewrite pass_events_eq. cbn [List.filter is_require].
  rewrite List.filter_app, filter_require_log. cbn [app].
  assert (names : state (solver (loop_body s)) = state (solver s))
    by (rewrite loop_body_solver, step_solver; reflexivity).
  unfold symmetrize. destruct (decide _); cbn [snd]; [|reflexivity].
  rewrite names. apply filter_require_require.
Qed.

Lemma loop_body_iteration (s : Run) :
  iteration (solver (loop_body s)) = (iteration (solver s) + 1)%Z.
Proof. rewrite loop_body_solver, step_solver. reflexivity. Qed.

Lemma log_iterations (i : Z) :
  ((i - 1) mod 10 = 0)%Z <-> exists k, (i = 10 * k + 1)%Z.
Proof.
  split.
  - intros e. exists ((i - 1) / 10)%Z.
    pose proof (Z.div_mod (i - 1) 10 ltac:(lia)). lia.
  - intros [k ->]. replace (10 * k + 1 - 1)%Z with (k * 10)%Z by lia.
    apply Z.mod_mul. lia.
Qed.

(** X1.  In every pass of the main loop a progress line is logged exactly
    when the iteration counter [i] after [solver.step] satisfies
    [(i - 1) % 10 == 0], that is for [i = 10 k + 1]; the line reports the
    simulation time after the step and the step size just used, and it is
    the only line of the pass. *)
Theorem log_cadence (n : nat) (st : Run) :
  Forall (fun s =>
            let s' := loop_body s in
            let i := iteration (solver s') in
            List.filter is_log (pass_events s)
            = if decide (((i - 1) mod 10)%Z = 0%Z)
              then [EvLog (sim_time (solver s) + dt s') (dt s')]
              else [])
         (passes n st)
  /\ (forall i, ((i - 1) mod 10 = 0)%Z <-> exists k, (i = 10 * k + 1)%Z).
Proof.
  split; [|exact log_iterations].
  apply passes_Forall. intros s. cbn zeta.
  rewrite pass_log_events. unfold log_progress.
  rewrite <- loop_body_sim_time. reflexivity.
Qed.

Lemma passes_lookup (n : nat) (st : Run) (j : nat) (s : Run) :
  passes n st !! j = Some s ->
  s = run j st /\ proceed (solver s) = true /\ (j < n)%nat.
Proof.
  revert st j. induction n as [|n IH]; intros st j; cbn; [discriminate|].
  destruct (proceed (solver st)) eqn:go; [|discriminate].
  destruct j as [|j]; cbn.
  - intros [= <-]. repeat split; [exact go | lia].
  - intros look. destruct (IH _ _ look) as (-> & go' & lt).
    rewrite go. repeat split; [exact go' | lia].
Qed.

Lemma passes_length (n : nat) (st : Run) : (length (passes n st) <= n)%nat.
Proof.
  revert st. induction n as [|n IH]; intros st; cbn [passes run length fmap list_fmap fold_left]; [lia|].
  destruct (proceed _); cbn [passes run length fmap list_fmap fold_left]; [|lia]. specialize (IH (loop_body st)). lia.
Qed.

Lemma passes_short (n : nat) (st : Run) :
  (length (passes n st) < n)%nat -> proceed (solver (run n st)) = false.
Proof.
  revert st. induction n as [|n IH]; intros st; cbn [passes run length fmap list_fmap fold_left]; [lia|].
  destruct (proceed (solver st)) eqn:go; cbn [passes run length fmap list_fmap fold_left];
    [|intros _; exact go].
  intros lt. apply IH. lia.
Qed.

Lemma run_iteration (n : nat) (st : Run) :
  iteration (solver (run n st))
  = (iteration (solver st) + Z.of_nat (length (passes n st)))%Z.
Proof.
  revert st. induction n as [|n IH]; intros st; cbn [passes run length fmap list_fmap fold_left]; [lia|].
  destruct (proceed _); cbn [passes run length fmap list_fmap fold_left]; [|lia].
  rewrite IH, loop_body_iteration. lia.
Qed.

Lemma run_sim_time (n : nat) (st : Run) :
  sim_time (solver (run n st))
  = fold_left Qplus (step_sizes n st) (sim_time (solver st)).
Proof.
  unfold step_sizes. revert st. induction n as [|n IH]; intros st; cbn [passes run length fmap list_fmap fold_left]; [reflexivity|].
  destruct (proceed _); cbn [passes run length fmap list_fmap fold_left]; [|reflexivity].
  rewrite IH, loop_body_sim_time. reflexivity.
Qed.

(** X2.  Bookkeeping of the main loop.  After [run n]: the iteration
    counter has advanced by the number of passes made, the simulation time
    is the initial time plus the step sizes of the passes, added in order;
    at most [n] passes are made, and fewer only when [solver.proceed] has
    turned false; the pass of index [j] starts from the state reached after
    [j] passes, with [solver.proceed] true and the iteration counter at its
    initial value plus [j]. *)
Theorem run_accounting (n : nat) (st : Run) :
  iteration (solver (run n st))
  = (iteration (solver st) + Z.of_nat (length (passes n st)))%Z
  /\ sim_time (solver (run n st))
     = fold_left Qplus (step_sizes n st) (sim_time (solver st))
  /\ (length (passes n st) <= n)%nat
  /\ ((length (passes n st) < n)%nat -> proceed (solver (run n st)) = false)
  /\ forall j s,
       passes n st !! j = Some s ->
       s = run j st
       /\ proceed (solver s) = true
       /\ iteration (solver s) = (iteration (solver st) + Z.of_nat j)%Z.
Proof.
  split; [apply run_iteration|]. split; [apply run_sim_time|].
  split; [apply passes_length|]. split; [apply passes_short|].
  intros j s look. destruct (passes_lookup n st j s look) as (-> & go & lt).
  split; [reflexivity|]. split; [exact go|].
  rewrite run_iteration. f_equal. f_equal.
  assert (full : forall m st', proceed (solver (run m st')) = true ->
                               length (passes m st') = m).
  { clear. intros m st' go.
    destruct (Nat.lt_ge_cases (length (passes m st')) m) as [short|ge].
    - apply passes_short in short. congruence.
    - pose proof (passes_length m st'). lia. }
  apply full, go.
Qed.

End Bookkeeping.

(** ** The state the main loop starts from *)

Section InitialState.
Context `{Kernels}.

Lemma set_r_vec_inv (inp : Inputs) (fs : gmap string Field) :
  set_r_vec inp (new_fields inp) = Some fs ->
  fs = <["r_vec"%string :=
           mkField Grid (<[2%nat := r inp]> (to_grid (replicate 3 (zeros (length (r inp))))))]>
         (new_fields inp).
Proof.
  unfold set_r_vec, new_fields. rewrite lookup_insert_eq. cbn.
  unfold set_grid_component. cbn. destruct (decide _); [cbn|discriminate].
  now intros [= <-].
Qed.

Lemma script_init_fresh (inp : Inputs) (st : Run) :
  script_init inp = Some st -> restart (argv inp) = false ->
  exists fs,
    set_r_vec inp (new_fields inp) = Some fs
    /\ length (rand (seed inp) (ball_size inp)) = ball_size inp
    /\ st = mkRun
              (<["T"%string :=
                   mkField Grid [zip_with Qplus (conductive <$> broadcast_r inp)
                                                (perturbation inp)]]> fs)
              (set_stop_sim_time 10.01 (InitialValueSolver Convection.variables))
              (new_CFL 0.05) 0.05 [].
Proof.
  unfold script_init. intros init fresh. rewrite fresh in init.
  destruct (set_r_vec inp (new_fields inp)) as [fs|]; [|discriminate].
  exists fs. split; [reflexivity|]. cbn in init.
  destruct (init_T inp fs) as [fs'|] eqn:eT; [|discriminate].
  apply init_T_spec in eT as [len ->]. rewrite broadcast_r_length in len.
  split; [exact len|]. cbn in init. now injection init as <-.
Qed.

Lemma script_init_restart (inp : Inputs) (st : Run) :
  script_init inp = Some st -> restart (argv inp) = true ->
  exists fs ck,
    set_r_vec inp (new_fields inp) = Some fs
    /\ files inp "checkpoints/checkpoints_s11.h5" = Some ck
    /\ st = mkRun
              (write_state (ck_data ck) Convection.variables fs)
              (mkSolver (ck_sim_time ck) (ck_iteration ck) (Some 20) None
                        Convection.variables kernel_init)
              (new_CFL (ck_dt ck)) (ck_dt ck) [].
Proof.
  unfold script_init. intros init again. rewrite again in init.
  destruct (set_r_vec inp (new_fields inp)) as [fs|]; [|discriminate].
  exists fs. cbn [mbind option_bind negb] in init. unfold load_state in init.
  destruct (files inp _) as [ck|]; [|discriminate].
  exists ck. split; [reflexivity|]. split; [reflexivity|].
  cbn in init. now injection init as <-.
Qed.

End InitialState.

Section InitialStateProperties.
Context `{Kernels}.

(** X3.  A fresh start leaves the fluid at rest.  When the initialisation
    succeeds without ['--restart']: [u], [p], [tau_u] and [tau_T] are still
    the fresh zero fields, [T] holds one grid array with a value per point
    of the ball, the store holds the six fields of the script and no other,
    and the solver is at time 0 and iteration 0 with stop time 10.01 and no
    iteration limit. *)
Theorem fresh_initial_state (inp : Inputs) (st : Run) :
  script_init inp = Some st -> restart (argv inp) = false ->
  fields st !! "u"%string = Some (Field_new 3 (ball_size inp))
  /\ fields st !! "p"%string = Some (Field_new 1 (ball_size inp))
  /\ fields st !! "tau_u"%string = Some (Field_new 3 (S2_size inp))
  /\ fields st !! "tau_T"%string = Some (Field_new 1 (S2_size inp))
  /\ (exists row, fields st !! "T"%string = Some (mkField Grid [row])
                  /\ length row = ball_size inp)
  /\ dom (fields st)
     = ({[ "u"; "p"; "T"; "tau_u"; "tau_T"; "r_vec" ]} : gset string)%string
  /\ sim_time (solver st) = 0 /\ iteration (solver st) = 0%Z
  /\ stop_sim_time (solver st) = Some 10.01 /\ stop_iteration (solver st) = None
  /\ state (solver st) = Convection.variables
  /\ trace st = [].
Proof.
  intros init fresh.
  destruct (script_init_fresh inp st init fresh) as (fs & e1 & len & ->).
  apply set_r_vec_inv in e1 as ->. cbn [fields solver trace].
  split; [now rewrite !lookup_insert_ne by discriminate|].
  split; [now rewrite !lookup_insert_ne by discriminate|].
  split; [now rewrite !lookup_insert_ne by discriminate|].
  split; [now rewrite !lookup_insert_ne by discriminate|].
  split.
  { eexists. split; [apply lookup_insert_eq|].
    rewrite length_zip_with, length_fmap, broadcast_r_length.
    unfold perturbation. rewrite length_fmap, len. lia. }
  split; [|repeat split].
  unfold new_fields. rewrite !dom_insert_L, dom_empty_L. set_solver.
Qed.

(** X4.  A restart takes its state from the checkpoint and from nothing
    else.  When the initialisation succeeds with ['--restart']: every
    problem variable holds the coefficient data saved under its name, the
    temperature included (no conductive profile, no random perturbation);
    [r_vec] is rebuilt as in a fresh start; the solver resumes at the saved
    time and iteration with stop time 20. *)
Theorem restart_initial_state (inp : Inputs) (st : Run) :
  script_init inp = Some st -> restart (argv inp) = true ->
  exists ck,
    files inp "checkpoints/checkpoints_s11.h5" = Some ck
    /\ (forall name, name ∈ Convection.variables ->
                     fields st !! name = Some (mkField Coeff (ck_data ck name)))
    /\ fields st !! "r_vec"%string
       = Some (mkField Grid
                 (<[2%nat := r inp]> (to_grid (replicate 3 (zeros (length (r inp)))))))
    /\ dom (fields st)
       = ({[ "u"; "p"; "T"; "tau_u"; "tau_T"; "r_vec" ]} : gset string)%string
    /\ sim_time (solver st) = ck_sim_time ck
    /\ iteration (solver st) = ck_iteration ck
    /\ stop_sim_time (solver st) = Some 20 /\ stop_iteration (solver st) = None
    /\ state (solver st) = Convection.variables
    /\ trace st = [].
Proof.
  intros init again.
  destruct (script_init_restart inp st init again) as (fs & ck & e1 & file & ->).
  exists ck. split; [exact file|]. cbn [fields solver trace].
  apply set_r_vec_inv in e1 as ->.
  split.
  { intros name mem. rewrite lookup_write_state. now rewrite decide_True. }
  split.
  { rewrite lookup_write_state, decide_False by apply r_vec_not_variable.
    apply lookup_insert_eq. }
  split; [|repeat split].
  unfold write_state, Convection.variables, new_fields. cbn [foldr].
  rewrite !dom_insert_L, dom_empty_L. set_solver.
Qed.

(** X5.  Restarting a run that is already over does nothing.  When the
    checkpoint was saved at or after time 20, the stop time of a restart,
    the main loop exits at once: no pass is made, no event is recorded and
    the state is the one the checkpoint gave, whatever number of passes is
    allowed. *)
Theorem restart_finished (inp : Inputs) (st : Run) (ck : Checkpoint) (fuel : nat) :
  script_init inp = Some st -> restart (argv inp) = true ->
  files inp "checkpoints/checkpoints_s11.h5" = Some ck ->
  20 <= ck_sim_time ck ->
  main_loop fuel st = Some st /\ passes fuel st = [] /\ trace (run fuel st) = [].
Proof.
  intros init again file late.
  destruct (script_init_restart inp st init again) as (fs & ck' & _ & file' & e).
  assert (ck' = ck) as -> by congruence.
  assert (stop : proceed (solver st) = false).
  { rewrite e. unfold proceed. cbn [solver stop_sim_time sim_time].
    destruct (Qlt_le_dec _ _); [lra | reflexivity]. }
  split; [|split].
  - unfold main_loop. rewrite run_stopped by exact stop. now rewrite stop.
  - destruct fuel; cbn [passes]; [reflexivity | now rewrite stop].
  - rewrite run_stopped by exact stop. now rewrite e.
Qed.

End InitialStateProperties.

Lemma fresh_initial_state_witness :
  exists st,
    @script_init still (demo_inputs []) = Some st
    /\ fields st !! "u"%string
       = Some (mkField Coeff [[0; 0; 0; 0]; [0; 0; 0; 0]; [0; 0; 0; 0]])
    /\ iteration (solver st) = 0%Z.
Proof.
  destruct (@script_init still (demo_inputs [])) as [st|] eqn:init;
    [|vm_compute in init; discriminate].
  exists st. split; [reflexivity|].
  destruct (@fresh_initial_state still (demo_inputs []) st init eq_refl)
    as (u & _ & _ & _ & _ & _ & _ & it & _).
  split; [exact u | exact it].
Defined.

Lemma restart_initial_state_witness :
  exists st,
    @script_init still (demo_inputs ["--restart"%string]) = Some st
    /\ fields st !! "T"%string = Some (mkField Coeff [[0; 0; 0; 0]])
    /\ iteration (solver st) = 1990%Z.
Proof.
  destruct (@script_init still (demo_inputs ["--restart"%string])) as [st|] eqn:init;
    [|vm_compute in init; discriminate].
  exists st. split; [reflexivity|].
  destruct (@restart_initial_state still (demo_inputs ["--restart"%string]) st init eq_refl)
    as (ck & file & vars & _ & _ & _ & it & _).
  vm_compute in file. injection file as <-.
  split; [|exact it].
  apply (vars "T"%string). unfold Convection.variables.
  rewrite !elem_of_cons. auto.
Defined.

Lemma restart_finished_witness :
  exists st,
    @script_init still late_inputs = Some st
    /\ @main_loop still 50 st = Some st
    /\ @passes still 50 st = [].
Proof.
  destruct (@script_init still late_inputs) as [st|] eqn:init;
    [|vm_compute in init; discriminate].
  exists st. split; [reflexivity|].
  destruct (@restart_finished still late_inputs st
              (mkCheckpoint 21 0.05 20.03 2003 (fun _ => [[0; 0; 0; 0]])) 50
              init eq_refl eq_refl ltac:(discriminate)) as (fin & none & _).
  split; [exact fin | exact none].
Defined.

(** ** How long a run takes *)

Section RunLength.
Context `{Kernels}.

Lemma loop_body_dt_cap (s : Run) (d0 : Q) :
  cfl s = new_CFL d0 -> dt (loop_body s) <= 0.05.
Proof. intros k. rewrite loop_body_dt, k. apply compute_timestep_cap. Qed.

Lemma loop_body_new_CFL (s : Run) (d0 : Q) :
  cfl s = new_CFL d0 -> cfl (loop_body s) = new_CFL (dt (loop_body s)).
Proof. intros k. rewrite loop_body_cfl, loop_body_dt, k. reflexivity. Qed.

Lemma sim_time_upper (n : nat) (st : Run) (d0 : Q) :
  cfl st = new_CFL d0 ->
  sim_time (solver (run n st)) <= sim_time (solver st) + inject_Z (Z.of_nat n) * 0.05.
Proof.
  revert st d0. induction n as [|n IH]; intros st d0 k.
  - change (inject_Z (Z.of_nat 0)) with 0. cbn [run]. lra.
  - rewrite Nat2Z.inj_succ, <- Z.add_1_r, inject_Z_plus. change (inject_Z 1) with 1.
    destruct (proceed (solver st)) eqn:go.
    + rewrite run_continues by exact go.
      specialize (IH (loop_body st) _ (loop_body_new_CFL st d0 k)).
      rewrite loop_body_sim_time in IH.
      pose proof (loop_body_dt_cap st d0 k). lra.
    + rewrite run_stopped by exact go.
      assert (0 <= inject_Z (Z.of_nat n)) by (change 0 with (inject_Z 0); rewrite <- Zle_Qle; lia).
      lra.
Qed.

(** X6.  The run ends within one maximal step of the stop time.  With the
    script's CFL controller and no iteration limit, when the main loop
    starts below the stop time and exits, the final simulation time [t']
    satisfies [stop_sim_time <= t' < stop_sim_time + 0.05]. *)
Theorem stop_overshoot (fuel : nat) (st st' : Run) (t d0 : Q) :
  cfl st = new_CFL d0 ->
  stop_sim_time (solver st) = Some t ->
  stop_iteration (solver st) = None ->
  proceed (solver st) = true ->
  main_loop fuel st = Some st' ->
  t <= sim_time (solver st') /\ sim_time (solver st') < t + 0.05.
Proof.
  unfold main_loop. intros k stop nolimit go fin.
  destruct (proceed (solver (run fuel st))) eqn:stopped; [discriminate|].
  injection fin as <-.
  revert st d0 k stop nolimit go stopped.
  induction fuel as [|n IH]; intros st d0 k stop nolimit go stopped.
  - cbn [run] in stopped. congruence.
  - rewrite run_continues in stopped |- * by exact go.
    destruct (loop_body_stop st) as [stop' nolimit'].
    rewrite stop in stop'. rewrite nolimit in nolimit'.
    destruct (proceed (solver (loop_body st))) eqn:next.
    + exact (IH (loop_body st) _ (loop_body_new_CFL st d0 k) stop' nolimit' next stopped).
    + rewrite run_stopped by exact next.
      destruct (proceed_false _ _ stop' next) as [reached|(m & lim & _)];
        [|congruence].
      split; [exact reached|].
      rewrite loop_body_sim_time.
      pose proof (proceed_before _ _ stop go).
      pose proof (loop_body_dt_cap st d0 k). lra.
Qed.

(** X7.  A fresh run takes at least 201 steps.  No step exceeds 0.05 and
    the run starts at time 0 with stop time 10.01, so after any number of
    passes below 201 the main loop is still running. *)
Theorem fresh_run_length (inp : Inputs) (st : Run) (fuel : nat) :
  script_init inp = Some st -> restart (argv inp) = false ->
  (fuel < 201)%nat ->
  main_loop fuel st = None /\ sim_time (solver (run fuel st)) <= 10.
Proof.
  intros init fresh few.
  destruct (script_init_fresh inp st init fresh) as (fs & _ & _ & e).
  assert (k : cfl st = new_CFL 0.05) by now rewrite e.
  assert (start : sim_time (solver st) = 0) by now rewrite e.
  pose proof (sim_time_upper fuel st _ k) as up. rewrite start in up.
  assert (inject_Z (Z.of_nat fuel) <= 200)
    by (change 200 with (inject_Z 200); rewrite <- Zle_Qle; lia).
  assert (early : sim_time (solver (run fuel st)) <= 10) by lra.
  split; [|exact early].
  unfold main_loop.
  assert (stop0 : stop_sim_time (solver st) = Some 10.01) by now rewrite e.
  assert (nolimit0 : stop_iteration (solver st) = None) by now rewrite e.
  destruct (run_stop fuel st) as [stop nolimit]. rewrite stop0 in stop.
  rewrite nolimit0 in nolimit.
  unfold proceed. rewrite stop, nolimit.
  destruct (Qlt_le_dec _ _); [reflexivity | lra].
Qed.

(** X8.  The schedule of a fresh run.  The pass of index [j] (from 0)
    brings the iteration counter to [j + 1]; it applies
    [require_grid_space] to the problem variables exactly when
    [(j + 1) % 100] is 0 or 1, and logs exactly when [j % 10 == 0].  So the
    first pass logs and symmetrises, and it is the only one of the first
    99 to symmetrise: the first symmetrisation is a single step, the later
    ones come in pairs (100, 101), (200, 201), ... *)
Theorem fresh_schedule (inp : Inputs) (st : Run) (n j : nat) (s : Run) :
  script_init inp = Some st -> restart (argv inp) = false ->
  passes n st !! j = Some s ->
  iteration (solver (loop_body s)) = (Z.of_nat j + 1)%Z
  /\ List.filter is_require (pass_events s)
     = (if decide (((Z.of_nat j + 1) mod 100)%Z ∈ [0; 1]%Z)
        then EvRequireGrid <$> Convection.variables
        else [])
  /\ List.filter is_log (pass_events s)
     = (if decide ((Z.of_nat j mod 10)%Z = 0%Z)
        then [EvLog (sim_time (solver s) + dt (loop_body s)) (dt (loop_body s))]
        else [])
  /\ ((j < 99)%nat ->
      (List.filter is_require (pass_events s) <> [] <-> j = 0%nat)).
Proof.
  intros init fresh look.
  destruct (script_init_fresh inp st init fresh) as (fs & _ & _ & e).
  destruct (passes_lookup n st j s look) as (-> & go & lt).
  assert (it0 : iteration (solver st) = 0%Z) by now rewrite e.
  assert (names0 : state (solver st) = Convection.variables) by now rewrite e.
  clear e.
  assert (it : iteration (solver (run j st)) = Z.of_nat j).
  { rewrite run_iteration, it0.
    destruct (Nat.lt_ge_cases (length (passes j st)) j) as [short|ge].
    - apply passes_short in short. congruence.
    - pose proof (passes_length j st). lia. }
  assert (names : state (solver (run j st)) = Convection.variables).
  { destruct (passes_invariant (fun s => state (solver s) = Convection.variables) j st)
      as [_ last]; [| exact names0 | exact last].
    intros s same. rewrite loop_body_solver, step_solver. exact same. }
  assert (i : iteration (solver (loop_body (run j st))) = (Z.of_nat j + 1)%Z)
    by (rewrite loop_body_iteration, it; reflexivity).
  assert (req : List.filter is_require (pass_events (run j st))
                = (if decide (((Z.of_nat j + 1) mod 100)%Z ∈ [0; 1]%Z)
                   then EvRequireGrid <$> Convection.variables
                   else [])).
  { rewrite pass_require_events, i, names. reflexivity. }
  split; [exact i|]. split; [exact req|]. split.
  - rewrite pass_log_events. unfold log_progress. rewrite i, loop_body_sim_time.
    replace (Z.of_nat j + 1 - 1)%Z with (Z.of_nat j) by lia. reflexivity.
  - intros small. rewrite req. destruct (Nat.eq_dec j 0%nat) as [->|pos].
    + split; [reflexivity | discriminate].
    + rewrite decide_False.
      * split; [intros ne; now destruct ne | intros ->; now destruct pos].
      * rewrite !elem_of_cons, elem_of_nil. rewrite Z.mod_small by lia. lia.
Qed.

End RunLength.


Lemma stop_overshoot_witness :
  exists st,
    @script_init still (demo_inputs ["--restart"%string]) = Some st
    /\ @main_loop still 3 st = Some (@run still 3 st)
    /\ 20 <= sim_time (solver (@run still 3 st))
    /\ sim_time (solver (@run still 3 st)) < 20 + 0.05.
Proof.
  destruct (@script_init still (demo_inputs ["--restart"%string])) as [st|] eqn:init;
    [|vm_compute in init; discriminate].
  exists st. split; [reflexivity|].
  assert (k : cfl st = new_CFL 0.01) by (vm_compute in init; now injection init as <-).
  assert (stop : stop_sim_time (solver st) = Some 20)
    by (vm_compute in init; now injection init as <-).
  assert (nolimit : stop_iteration (solver st) = None)
    by (vm_compute in init; now injection init as <-).
  assert (go : @proceed still (solver st) = true)
    by (vm_compute in init; now injection init as <-).
  assert (fin : @main_loop still 3 st = Some (@run still 3 st))
    by (vm_compute in init; injection init as <-; vm_compute; reflexivity).
  split; [exact fin|].
  exact (@stop_overshoot still 3 st _ 20 0.01 k stop nolimit go fin).
Defined.

Lemma fresh_run_length_witness :
  exists st,
    @script_init still (demo_inputs []) = Some st
    /\ @main_loop still 7 st = None.
Proof.
  destruct (@script_init still (demo_inputs [])) as [st|] eqn:init;
    [|vm_compute in init; discriminate].
  exists st. split; [reflexivity|].
  exact (proj1 (@fresh_run_length still (demo_inputs []) st 7 init eq_refl ltac:(lia))).
Defined.

Lemma fresh_schedule_witness :
  exists st,
    @script_init still (demo_inputs []) = Some st
    /\ @passes still 3 st !! 0%nat = Some st
    /\ List.filter is_require (@pass_events still st)
       = EvRequireGrid <$> Convection.variables.
Proof.
  destruct (@script_init still (demo_inputs [])) as [st|] eqn:init;
    [|vm_compute in init; discriminate].
  exists st. split; [reflexivity|].
  assert (first : @passes still 3 st !! 0%nat = Some st)
    by (vm_compute in init; injection init as <-; reflexivity).
  split; [exact first|].
  exact (proj1 (proj2 (@fresh_schedule still (demo_inputs []) st 3 0 st
                         init eq_refl first))).
Defined.

(** ** The forcing of the Poisson problem *)

Section PoissonForcing.
Import PoissonData.

Lemma forcing_value (s y : Q) :
  -1 <= s <= 1 -> 0 <= y <= 1 ->
  - (5 # 2) <= -10 * s ^ 2 * (y - y ^ 2) <= 0.
Proof.
  intros [s_lo s_hi] [y_lo y_hi].
  change (s ^ 2) with (s * s). change (y ^ 2) with (y * y).
  assert (a_lo : 0 <= s * s).
  { destruct (Qlt_le_dec s 0).
    - assert (e : s * s == (- s) * (- s)) by ring.
      rewrite e. apply Qmult_le_0_compat; lra.
    - apply Qmult_le_0_compat; lra. }
  assert (a_hi : 0 <= (1 - s) * (1 + s)) by (apply Qmult_le_0_compat; lra).
  assert (w_lo : 0 <= y * (1 - y)) by (apply Qmult_le_0_compat; lra).
  assert (w_hi : 0 <= (y - (1 # 2)) * (y - (1 # 2))).
  { destruct (Qlt_le_dec y (1 # 2)).
    - assert (e : (y - (1 # 2)) * (y - (1 # 2)) == ((1 # 2) - y) * ((1 # 2) - y))
        by ring.
      rewrite e. apply Qmult_le_0_compat; lra.
    - apply Qmult_le_0_compat; lra. }
  assert (lo : 0 <= (s * s) * (y * (1 - y))) by (apply Qmult_le_0_compat; lra).
  assert (hi : 0 <= ((1 - s) * (1 + s)) * (y * (1 - y)))
    by (apply Qmult_le_0_compat; lra).
  split; lra.
Qed.

(** X9.  The forcing of the Poisson problem is a sink of bounded strength.
    On a grid whose [y] points lie in [[0, Ly] = [0, 1]], and with the sine
    taking values in [[-1, 1]], the array [f['g']] has one row per point of
    [x] and one value per point of [y], and every value lies in
    [[-5/2, 0]]; the array [h['g']] is zero. *)
Theorem forcing_bounds (sin : Q -> Q) (x y : list Q) :
  Forall (fun xi => -1 <= sin (xi / 2) <= 1) x ->
  Forall (fun yj => 0 <= yj <= Ly) y ->
  length (f_grid sin x y) = length x
  /\ Forall (fun row => length row = length y
                        /\ Forall (fun v => - (5 # 2) <= v <= 0) row)
            (f_grid sin x y)
  /\ length (h_grid x) = length x /\ all_zero (h_grid x).
Proof.
  intros bounded inside. unfold f_grid, h_grid.
  split; [apply length_fmap|]. split; [|split; [apply length_fmap|]].
  - apply Forall_fmap. eapply Forall_impl; [exact bounded|].
    intros xi s_range. cbn beta. split; [apply length_fmap|].
    apply Forall_fmap. eapply Forall_impl; [exact inside|].
    intros yj y_range. cbn beta. now apply forcing_value.
  - apply Forall_fmap. apply Forall_forall. intros. reflexivity.
Qed.

End PoissonForcing.

Lemma forcing_bounds_witness :
  Forall (Forall (fun v => - (5 # 2) <= v <= 0))
         (PoissonData.f_grid (fun a => a) [0; 1; -2] [0; 1 # 4; 1 # 2; 1]).
Proof.
  assert (bounded : Forall (fun xi => -1 <= (fun a : Q => a) (xi / 2) <= 1) [0; 1; -2])
    by (repeat constructor; discriminate).
  assert (inside : Forall (fun yj => 0 <= yj <= PoissonData.Ly) [0; 1 # 4; 1 # 2; 1])
    by (repeat constructor; discriminate).
  destruct (forcing_bounds (fun a => a) _ _ bounded inside) as (_ & rows & _).
  eapply Forall_impl; [exact rows|]. now intros row [_ values].
Defined.

(** ** The equations that govern a mode *)

(** X10.  At every spectral index the convection problem is governed by
    six of its seven equations, in the order they were added: the five
    without a condition and, in fourth place, the pressure gauge where
    [ntheta == 0] and the no-penetration condition elsewhere; the index
    [nphi] plays no part.  The three equations of the Poisson problem govern
    every index. *)
Theorem governing_equations (i : spectral_index) :
  List.filter (governs i) Convection.equations
  = [Convection.momentum; Convection.continuity; Convection.temperature;
     (if decide (idx_ntheta i = 0%Z) then Convection.pressure_gauge
      else Convection.no_penetration);
     Convection.stress_free; Convection.temperature_bc]
  /\ List.filter (governs i) Convection.equations
     = List.filter (governs (mkIndex 0 (idx_ntheta i))) Convection.equations
  /\ List.filter (governs i) Poisson.equations = Poisson.equations.
Proof.
  assert (conv : forall k,
             List.filter (governs k) Convection.equations
             = [Convection.momentum; Convection.continuity; Convection.temperature;
                (if decide (idx_ntheta k = 0%Z) then Convection.pressure_gauge
                 else Convection.no_penetration);
                Convection.stress_free; Convection.temperature_bc]).
  { intros k. unfold Convection.equations. cbn.
    destruct (decide (idx_ntheta k = 0%Z)) as [e|n].
    - rewrite (bool_decide_eq_false_2 _ (fun ne => ne e)), (bool_decide_eq_true_2 _ e).
      reflexivity.
    - rewrite (bool_decide_eq_true_2 _ n), (bool_decide_eq_false_2 _ n).
      reflexivity. }
  split; [apply conv|]. split; [|reflexivity].
  rewrite !conv. reflexivity.
Qed.
